(** * The season-schedule download loop of [makeNbaDb/testit.py]

    The script lists the available NBA seasons, and for each of them downloads
    the schedule from the remote API unless a file for it is already in the
    schedule directory.  This development embeds the loop (lines 36-58 of the
    script) as a program in a small exception-and-state monad over a file
    system and an event trace, and proves the properties the specification
    states about it. *)

From Stdlib Require Import Ascii.
From stdpp Require Import gmap strings list pretty.

Open Scope Z_scope.

(** ** Data *)

(** One element of [allSeasons]: the loop reads [season["year"]] (an integer)
    and [season["type"]["code"]] (a string) and nothing else. *)
Record Season := { year : Z; type : string }.

Global Instance Season_eq_dec : EqDecision Season.
Proof. solve_decision. Defined.

(** What the script does to the outside world, besides writing files. *)
Inductive Event :=
  | EPrint (line : string)          (* print(line) *)
  | ESleep (secs : Z)               (* time.sleep(secs) *)
  | EGet (host url : string).       (* conn.request("GET", url) on a connection to host *)

Global Instance Event_eq_dec : EqDecision Event.
Proof. solve_decision. Defined.

(** What comes back from a request: nothing (the connection, the request or
    the read raised), or a response with a status line and a body.  The
    status is part of every HTTP response; [http.client] raises for none. *)
Inductive Reply :=
  | NoReply
  | Response (status : Z) (data : string).

(** The exceptions that end the script. *)
Inductive Exn :=
  | NetworkError          (* OSError / http.client.HTTPException of the request *)
  | UnicodeDecodeError    (* data.decode("utf8") *)
  | JSONDecodeError       (* json.loads *)
  | OSError.              (* open(outpath, 'w') *)

(** The store: the files (path to content; a path is present exactly when
    [os.path.exists] holds of it) and the events so far, oldest first. *)
Record State := { fs : gmap string string; trace : list Event }.

Inductive Result (A : Type) :=
  | Ok (a : A)
  | Raise (e : Exn).
Arguments Ok {A} a.
Arguments Raise {A} e.

(** ** The monad of the script: state, and exceptions that stop it *)

Definition M (A : Type) : Type := State → Result A * State.

Global Instance M_ret : MRet M := λ A a s, (Ok a, s).
Global Instance M_bind : MBind M := λ A B f m s,
  match m s with
  | (Ok a, s') => f a s'
  | (Raise e, s') => (Raise e, s')
  end.

Definition raise {A} (e : Exn) : M A := λ s, (Raise e, s).

(** An optional value, with the exception its absence stands for. *)
Definition orRaise {A} (e : Exn) (o : option A) : M A :=
  match o with Some a => mret a | None => raise e end.

Definition log (e : Event) (s : State) : State :=
  {| fs := fs s; trace := trace s ++ [e] |}.

Definition emit (e : Event) : M unit := λ s, (Ok tt, log e s).

(** [for x in xs: body] *)
Fixpoint for_each {A} (xs : list A) (body : A → M unit) : M unit :=
  match xs with
  | [] => mret tt
  | x :: xs' => body x ;; for_each xs' body
  end.

(** ** Library calls of the script *)

(** [str(n)] of a Python [int]: sign and decimal digits. *)
Definition str (n : Z) : string := pretty n.

Fixpoint endswith_sep (s : string) : bool :=
  match s with
  | EmptyString => false
  | String c EmptyString => bool_decide (c = "/"%char)
  | String _ s' => endswith_sep s'
  end.

Definition startswith_sep (s : string) : bool :=
  match s with
  | String c _ => bool_decide (c = "/"%char)
  | EmptyString => false
  end.

(** [os.path.join(a, b)] ([posixpath]): an absolute [b] replaces [a]; else
    [b] is appended, after a separator unless [a] is empty or ends in one.
    ([ntpath] differs for the arguments below in the separator only.) *)
Definition os_path_join (a b : string) : string :=
  if startswith_sep b then b
  else if bool_decide (a = EmptyString) || endswith_sep a then a +:+ b
  else a +:+ "/" +:+ b.

Definition print (line : string) : M unit := emit (EPrint line).
Definition time_sleep (secs : Z) : M unit := emit (ESleep secs).

Definition os_path_exists (p : string) : M bool :=
  λ s, (Ok (bool_decide (is_Some (fs s !! p))), s).

(** ** The environment

    The JSON library, the remote host and the parts of the file system the
    script does not change. *)
Class Env := {
  (** the values [json.loads] returns *)
  Json : Type;
  (** [bytes.decode("utf8")]; [None] is UnicodeDecodeError *)
  decode_utf8 : string → option string;
  (** [json.loads]; [None] is JSONDecodeError *)
  json_loads : string → option Json;
  (** the text [json.dump] writes *)
  json_dumps : Json → string;
  (** the reply of the remote host to a GET, which may depend on everything
      that happened before (rate limits, changing data) *)
  server : list Event → string → string → Reply;
  (** whether [open(p, 'w')] can create [p]: the script creates no directory
      ([os.makedirs] is commented out) and changes no permission, so this is
      fixed during a run *)
  writable : string → bool;
  (** [srNBAKey.value] *)
  apiKey : string
}.

Section Script.
Context {env : Env}.

(** [conn = HTTPSConnection(host, timeout = 10); conn.request("GET", url);
    res = conn.getresponse(); data = res.read()].  The status of the response
    is not looked at. *)
Definition http_get (host url : string) : M (Z * string) := λ s,
  let s' := log (EGet host url) s in
  match server (trace s) host url with
  | NoReply => (Raise NetworkError, s')
  | Response status data => (Ok (status, data), s')
  end.

(** [with open(p, 'w') as f: f.write(content)]: creates the file, or replaces
    its content. *)
Definition write_file (p content : string) : M unit := λ s,
  if writable p then (Ok tt, {| fs := <[p := content]> (fs s); trace := trace s |})
  else (Raise OSError, s).

(** ** The script *)

Definition nbaDir : string := "D:/nbaBlog".
Definition schedDir : string := os_path_join nbaDir "schedules".

Definition apiHost : string := "api.sportradar.us".

(** The f-string of [getSchedule]. *)
Definition schedule_url (year : Z) (seasonType apiKey : string) : string :=
  "/nba/trial/v7/en/games/" +:+ str year +:+ "/" +:+ seasonType
    +:+ "/schedule.json?api_key=" +:+ apiKey.

Definition getSchedule (year : Z) (seasonType apiKey : string) : M Json :=
  res ← http_get apiHost (schedule_url year seasonType apiKey);
  let data := res.2 in
  text ← orRaise UnicodeDecodeError (decode_utf8 data);
  orRaise JSONDecodeError (json_loads text).

Definition fileName (season : Season) : string :=
  "sched" +:+ type season +:+ str (year season) +:+ ".json".

Definition outpath (season : Season) : string :=
  os_path_join schedDir (fileName season).

(** The body of the loop over [allSeasons]. *)
Definition download (season : Season) : M unit :=
  there ← os_path_exists (outpath season);
  if negb there then
    print ("downloading " +:+ fileName season);;
    time_sleep 1;;
    seas ← getSchedule (year season) (type season) apiKey;
    write_file (outpath season) (json_dumps seas)
  else mret tt.

(** The loop; the specification calls it [sync]. *)
Definition sync (allSeasons : list Season) : M unit :=
  for_each allSeasons download.

(** ** Observations on a run *)

(** The events a run from [s] to [s'] added. *)
Definition emitted (s s' : State) : list Event :=
  drop (length (trace s)) (trace s').

(** The requests among some events. *)
Definition fetches (evs : list Event) : list (string * string) :=
  omap (λ e, match e with EGet h u => Some (h, u) | _ => None end) evs.

(** The request [getSchedule] sends for a season. *)
Definition fetch_of (season : Season) : Event :=
  EGet apiHost (schedule_url (year season) (type season) apiKey).

(** How often the schedule of a season is requested among some events. *)
Definition fetch_count (season : Season) (evs : list Event) : nat :=
  length (filter (λ e, e = fetch_of season) evs).

(** The state in which [getSchedule] is called for a season: the progress
    notice is printed and the pause is over. *)
Definition announced (season : Season) (s : State) : State :=
  log (ESleep 1) (log (EPrint ("downloading " +:+ fileName season)) s).

(** Every request among the events comes right after a pause of one second. *)
Definition throttled (evs : list Event) : Prop :=
  ∀ i h u, evs !! i = Some (EGet h u) →
    ∃ j, i = S j ∧ evs !! j = Some (ESleep 1).

End Script.

(** No path below the directory exists. *)
Definition dir_empty (dir : string) (files : gmap string string) : Prop :=
  ∀ name, files !! (dir +:+ "/" +:+ name) = None.

(** No separator occurs in the string. *)
Fixpoint no_sep (s : string) : Prop :=
  match s with
  | EmptyString => True
  | String c s' => c ≠ "/"%char ∧ no_sep s'
  end.

(** ** A sample environment

    A host that does not answer for the 2021 play-offs, answers the 2020
    regular season with a page that is no JSON, refuses the 2019 regular
    season with status 403 and a JSON body, and serves every other schedule;
    a stand-in for the JSON library that takes a text for JSON when it opens
    with a brace or a bracket and keeps the text as the value. *)

Definition sample_key : string := "TESTKEY".

Definition sample_loads (text : string) : option string :=
  match text with
  | String "{" _ | String "[" _ => Some text
  | _ => None
  end.

Definition sample_server (history : list Event) (host url : string) : Reply :=
  if bool_decide (url = schedule_url 2021 "PST" sample_key) then NoReply
  else if bool_decide (url = schedule_url 2020 "REG" sample_key)
  then Response 200 "<h1>Developer Over Qps</h1>"
  else if bool_decide (url = schedule_url 2019 "REG" sample_key)
  then Response 403 "{}"
  else Response 200 "{}".

Definition sample_env : Env := {|
  Json := string;
  decode_utf8 := Some;
  json_loads := sample_loads;
  json_dumps := id;
  server := sample_server;
  writable := λ _, true;
  apiKey := sample_key
|}.

(** Nothing on disk, nothing done yet. *)
Definition sample_start : State := {| fs := ∅; trace := [] |}.

(** The schedule of the 2021 regular season is on disk. *)
Definition sample_cached : State :=
  {| fs := {[ "D:/nbaBlog/schedules/schedREG2021.json" := "{}" ]}; trace := [] |}.

(** ** Further observations *)

(** The events of one download: the notice, the pause, the request. *)
Definition download_events {env : Env} (season : Season) : list Event :=
  [EPrint ("downloading " +:+ fileName season); ESleep 1; fetch_of season].

(** The seconds the script paused for among some events. *)
Definition slept (evs : list Event) : Z :=
  foldr (λ e acc, match e with ESleep secs => secs + acc | _ => acc end) 0 evs.


(** The characters [str] produces: the digits and the minus sign. *)
Definition numeric_char (c : ascii) : bool :=
  match c with
  | "0" | "1" | "2" | "3" | "4" | "5" | "6" | "7" | "8" | "9" | "-" => true
  | _ => false
  end%char.

(** The first character is a digit or a minus sign. *)
Definition starts_numeric (s : string) : Prop :=
  match s with
  | EmptyString => False
  | String c _ => numeric_char c = true
  end.

(** No character is a digit or a minus sign, as in the type codes REG, PST
    and PRE. *)
Fixpoint wordy (s : string) : Prop :=
  match s with
  | EmptyString => True
  | String c s' => numeric_char c = false ∧ wordy s'
  end.

(** * Properties *)

(** ** Strings *)

Lemma append_nil (b : string) : EmptyString +:+ b = b.
Proof. reflexivity. Qed.

Lemma append_cons (c : ascii) (a b : string) :
  String c a +:+ b = String c (a +:+ b).
Proof. reflexivity. Qed.

Lemma length_append (a b : string) :
  String.length (a +:+ b) = (String.length a + String.length b)%nat.
Proof.
  induction a as [|c a IH]; [done|].
  rewrite append_cons. simpl. by rewrite IH.
Qed.

(** A common ending can be cancelled. *)
Lemma append_inj_r (a b e : string) : a +:+ e = b +:+ e → a = b.
Proof.
  revert b. induction a as [|x a IH]; intros [|y b] H;
    rewrite ?append_nil, ?append_cons in H.
  - done.
  - apply (f_equal String.length) in H. simpl in H. rewrite length_append in H. lia.
  - apply (f_equal String.length) in H. simpl in H. rewrite length_append in H. lia.
  - injection H as -> H. f_equal. by apply IH.
Qed.

(** Two strings cut at their first separator agree part by part. *)
Lemma split_first_sep (a b r r' : string) :
  no_sep a → no_sep b →
  a +:+ String "/" r = b +:+ String "/" r' → a = b ∧ r = r'.
Proof.
  revert b. induction a as [|x a IH]; intros [|y b] Ha Hb H;
    rewrite ?append_nil, ?append_cons in H.
  - by injection H.
  - injection H as <- _. by destruct Hb.
  - injection H as -> _. by destruct Ha.
  - injection H as -> H. destruct Ha as [_ Ha], Hb as [_ Hb].
    destruct (IH b Ha Hb H) as [-> ->]. done.
Qed.

Lemma no_sep_digit (x : N) : pretty_N_char x ≠ "/"%char.
Proof. unfold pretty_N_char. by repeat case_match. Qed.

Lemma no_sep_pretty_N_go (x : N) (s : string) :
  no_sep s → no_sep (pretty_N_go x s).
Proof.
  revert s. induction (N.lt_wf_0 x) as [x _ IH]; intros s Hs.
  destruct (decide (x = 0%N)) as [->|Hx]; [done|].
  rewrite pretty_N_go_step by lia.
  apply IH; [apply N.div_lt; lia|]. split; [apply no_sep_digit | done].
Qed.

Lemma no_sep_pretty_N (x : N) : no_sep (pretty x).
Proof.
  unfold pretty, pretty_N. case_decide; [by compute|].
  by apply no_sep_pretty_N_go.
Qed.

(** The decimal rendering of an integer holds no separator. *)
Lemma no_sep_str (n : Z) : no_sep (str n).
Proof.
  unfold str, pretty, pretty_Z. destruct n as [|p|p].
  - by compute.
  - apply no_sep_pretty_N.
  - simpl. split; [done|]. apply no_sep_pretty_N.
Qed.

Lemma str_inj (m n : Z) : str m = str n → m = n.
Proof. unfold str. apply pretty_Z_inj. Qed.

(** Requests for two seasons with one key differ unless the seasons agree. *)
Lemma schedule_url_inj (y y' : Z) (t t' k : string) :
  schedule_url y t k = schedule_url y' t' k → y = y' ∧ t = t'.
Proof.
  unfold schedule_url. intros H.
  apply (inj (String.app _)) in H.
  apply split_first_sep in H as [Hy Ht]; [|apply no_sep_str..].
  split; [by apply str_inj|]. by apply append_inj_r in Ht.
Qed.

(** ** The loop body *)

Section Proofs.
Context {env : Env}.

Lemma outpath_eq (d : Season) :
  outpath d = "D:/nbaBlog/schedules/" +:+ fileName d.
Proof. reflexivity. Qed.

Lemma bind_eq {A B} (m : M A) (f : A → M B) (s : State) :
  (m ≫= f) s =
  match m s with (Ok a, s') => f a s' | (Raise e, s') => (Raise e, s') end.
Proof. reflexivity. Qed.

Lemma getSchedule_eq (y : Z) (t k : string) (s : State) :
  getSchedule y t k s =
  let s' := log (EGet apiHost (schedule_url y t k)) s in
  match server (trace s) apiHost (schedule_url y t k) with
  | NoReply => (Raise NetworkError, s')
  | Response _ data =>
      match decode_utf8 data with
      | None => (Raise UnicodeDecodeError, s')
      | Some text =>
          match json_loads text with
          | None => (Raise JSONDecodeError, s')
          | Some v => (Ok v, s')
          end
      end
  end.
Proof.
  unfold getSchedule. rewrite bind_eq. unfold http_get. simpl.
  destruct (server _ _ _) as [|st data]; [done|]. simpl.
  rewrite bind_eq. destruct (decode_utf8 data) as [text|]; [|done]. simpl.
  by destruct (json_loads text).
Qed.

(** The request is sent whatever comes back. *)
Lemma getSchedule_state (y : Z) (t k : string) (s : State) :
  (getSchedule y t k s).2 = log (EGet apiHost (schedule_url y t k)) s.
Proof.
  rewrite getSchedule_eq. simpl.
  destruct (server _ _ _) as [|st data]; [done|].
  destruct (decode_utf8 data) as [text|]; [|done].
  by destruct (json_loads text).
Qed.

Lemma download_present (d : Season) (s : State) :
  is_Some (fs s !! outpath d) → download d s = (Ok tt, s).
Proof.
  intros H. unfold download. rewrite bind_eq. unfold os_path_exists.
  by rewrite bool_decide_eq_true_2.
Qed.

Lemma download_absent (d : Season) (s : State) :
  fs s !! outpath d = None →
  download d s =
  match getSchedule (year d) (type d) apiKey (announced d s) with
  | (Ok seas, s') => write_file (outpath d) (json_dumps seas) s'
  | (Raise e, s') => (Raise e, s')
  end.
Proof.
  intros H. unfold download. rewrite bind_eq. unfold os_path_exists.
  rewrite bool_decide_eq_false_2; [done|].
  rewrite H. by intros [? ?].
Qed.

(** What one pass through the body does: nothing when the file is there;
    else three events, and a new file at [outpath] unless an exception ends
    the pass. *)
Lemma download_spec (d : Season) (s : State) :
  (is_Some (fs s !! outpath d) ∧ download d s = (Ok tt, s)) ∨
  (fs s !! outpath d = None ∧
   ∃ r s', download d s = (r, s') ∧
     trace s' = trace s ++
       [EPrint ("downloading " +:+ fileName d); ESleep 1; fetch_of d] ∧
     ((∃ e, r = Raise e ∧ fs s' = fs s) ∨
      (r = Ok tt ∧ ∃ c, fs s' = <[outpath d := c]> (fs s)))).
Proof.
  destruct (fs s !! outpath d) as [c|] eqn:Hfs.
  { left. split; [by eexists|]. apply download_present. by eexists. }
  right. split; [done|]. rewrite (download_absent _ _ Hfs).
  pose proof (getSchedule_state (year d) (type d) apiKey (announced d s)) as Hst.
  destruct (getSchedule _ _ _ _) as [[seas|e] s1]; simpl in Hst; subst s1.
  - unfold write_file. destruct (writable (outpath d)).
    + eexists _, _. split; [done|]. split.
      { simpl. by rewrite <-!app_assoc. }
      right. split; [done|]. by eexists.
    + eexists _, _. split; [done|]. split.
      { simpl. by rewrite <-!app_assoc. }
      left. by eexists.
  - eexists _, _. split; [done|]. split.
    { simpl. by rewrite <-!app_assoc. }
    left. by eexists.
Qed.

(** ** The loop *)

Lemma sync_nil (s : State) : sync [] s = (Ok tt, s).
Proof. reflexivity. Qed.

Lemma sync_cons (d : Season) (ds : list Season) (s : State) :
  sync (d :: ds) s =
  match download d s with
  | (Ok _, s') => sync ds s'
  | (Raise e, s') => (Raise e, s')
  end.
Proof. reflexivity. Qed.

Lemma sync_app (ds ds' : list Season) (s : State) :
  sync (ds ++ ds') s =
  match sync ds s with
  | (Ok _, s') => sync ds' s'
  | (Raise e, s') => (Raise e, s')
  end.
Proof.
  revert s. induction ds as [|d ds IH]; intros s; [done|].
  rewrite <-app_comm_cons, !sync_cons.
  destruct (download d s) as [[[]|e] s1]; [apply IH | done].
Qed.

(** A run only adds events. *)
Lemma sync_trace (ds : list Season) (s : State) :
  trace (sync ds s).2 = trace s ++ emitted s (sync ds s).2.
Proof.
  cut (∃ evs, trace (sync ds s).2 = trace s ++ evs).
  { intros [evs H]. unfold emitted. by rewrite H, drop_app_length. }
  revert s. induction ds as [|d ds IH]; intros s.
  { exists []. by rewrite app_nil_r. }
  rewrite sync_cons.
  destruct (download_spec d s) as [[_ ->]|(_ & r & s1 & -> & Htr & Hr)]; [apply IH|].
  destruct Hr as [[e [-> _]]|[-> _]]; [by eexists|].
  destruct (IH s1) as [evs Hevs]. rewrite Hevs, Htr, <-app_assoc. by eexists.
Qed.

(** A run only adds files. *)
Lemma sync_fs_mono (ds : list Season) (s : State) (p c : string) :
  fs s !! p = Some c → fs (sync ds s).2 !! p = Some c.
Proof.
  revert s. induction ds as [|d ds IH]; intros s Hp; [done|].
  rewrite sync_cons.
  destruct (download_spec d s) as [[_ ->]|(Hd & r & s1 & -> & _ & Hr)]; [by apply IH|].
  destruct Hr as [[e [-> Hfs]]|[-> [c' Hfs]]]; simpl.
  - by rewrite Hfs.
  - apply IH. rewrite Hfs, lookup_insert_ne; [done|]. congruence.
Qed.

Lemma emitted_app (s s' : State) (evs : list Event) :
  trace s' = trace s ++ evs → emitted s s' = evs.
Proof. intros H. unfold emitted. by rewrite H, drop_app_length. Qed.

Lemma emitted_refl (s : State) : emitted s s = [].
Proof. apply emitted_app. by rewrite app_nil_r. Qed.

(** The events of a pass followed by a run. *)
Lemma emitted_step (ds : list Season) (s s1 : State) (evs : list Event) :
  trace s1 = trace s ++ evs →
  emitted s (sync ds s1).2 = evs ++ emitted s1 (sync ds s1).2.
Proof.
  intros H. apply emitted_app. by rewrite sync_trace, H, <-app_assoc.
Qed.

(** A file that is there is enough for the loop to pass over a season. *)
Lemma sync_present (ds : list Season) (s : State) :
  (∀ d, d ∈ ds → is_Some (fs s !! outpath d)) → sync ds s = (Ok tt, s).
Proof.
  induction ds as [|d ds IH]; intros H; [done|].
  rewrite sync_cons, download_present by (apply H; left).
  apply IH. intros d' Hd'. apply H. by right.
Qed.

(** A run that ends normally leaves a file for each season. *)
Lemma sync_populates (ds : list Season) (s s' : State) :
  sync ds s = (Ok tt, s') → ∀ d, d ∈ ds → is_Some (fs s' !! outpath d).
Proof.
  revert s. induction ds as [|d0 ds IH]; intros s Hrun d Hd.
  { by apply elem_of_nil in Hd. }
  rewrite sync_cons in Hrun.
  assert (∃ s1, download d0 s = (Ok tt, s1) ∧ is_Some (fs s1 !! outpath d0))
    as (s1 & Hs1 & Hfile).
  { destruct (download_spec d0 s) as [[? ?]|(_ & r & s1 & Hdl & _ & Hr)]; [by eexists|].
    rewrite Hdl in Hrun.
    destruct Hr as [[e [-> _]]|[-> [c Hfs]]]; [done|].
    exists s1. split; [done|]. rewrite Hfs, lookup_insert_eq. by eexists. }
  rewrite Hs1 in Hrun.
  apply elem_of_cons in Hd as [->|Hd]; [|by eapply IH].
  destruct Hfile as [c Hc]. exists c.
  replace s' with (sync ds s1).2 by by rewrite Hrun.
  by apply sync_fs_mono.
Qed.

(** Running the loop again after a run that ended normally changes nothing
    and sends no request. *)
Lemma sync_rerun (ds : list Season) (s s' : State) :
  sync ds s = (Ok tt, s') → sync ds s' = (Ok tt, s').
Proof. intros H. apply sync_present. by eapply sync_populates. Qed.

(** C1.  When the schedule directory holds a file for the key of every season
    in the list, a run of the loop sends no request: it takes the skip branch
    for every season, ends normally and leaves the files and the trace as
    they were. *)
Theorem sync_cached_no_fetch (ds : list Season) (s : State) :
  (∀ d, d ∈ ds → is_Some (fs s !! outpath d)) →
  fetches (emitted s (sync ds s).2) = [] ∧ sync ds s = (Ok tt, s).
Proof.
  intros H. rewrite (sync_present ds s H). simpl.
  by rewrite emitted_refl.
Qed.

(** C2.  The key of a season is "sched", its type code, the decimal digits of
    its year and ".json", in this order; it is "schedREG2021.json" for the
    regular season of 2021; and it is determined by the two fields. *)
Theorem fileName_deterministic :
  (∀ d, fileName d = "sched" +:+ type d +:+ pretty (year d) +:+ ".json") ∧
  fileName {| year := 2021; type := "REG" |} = "schedREG2021.json" ∧
  (∀ d d', year d = year d' → type d = type d' → fileName d = fileName d').
Proof.
  split; [done|]. split; [by vm_compute|].
  intros d d' Hy Ht. unfold fileName. by rewrite Hy, Ht.
Qed.

(** C3.  When the file of a season is there at the time of the check, the
    body of the loop sends no request, emits nothing and writes nothing. *)
Theorem skip_on_presence (d : Season) (s : State) :
  is_Some (fs s !! outpath d) →
  download d s = (Ok tt, s) ∧
  fetches (emitted s (download d s).2) = [] ∧
  fs (download d s).2 = fs s.
Proof.
  intros H. rewrite (download_present d s H). simpl.
  by rewrite emitted_refl.
Qed.

(** ** Requests in a run *)

Lemma fetch_of_inj (d d' : Season) : fetch_of d = fetch_of d' → d = d'.
Proof.
  assert (∀ h u u', EGet h u = EGet h u' → u = u') as Hurl by congruence.
  intros H. apply Hurl, schedule_url_inj in H as [Hy Ht].
  destruct d, d'; simpl in *. by subst.
Qed.

Lemma fetch_count_app (d : Season) (evs evs' : list Event) :
  fetch_count d (evs ++ evs') = (fetch_count d evs + fetch_count d evs')%nat.
Proof. unfold fetch_count. by rewrite filter_app, length_app. Qed.

(** The events of one download hold the request of that season only. *)
Lemma fetch_count_pass (d d0 : Season) (line : string) (secs : Z) :
  fetch_count d [EPrint line; ESleep secs; fetch_of d0] =
  if decide (d0 = d) then 1%nat else 0%nat.
Proof.
  unfold fetch_count.
  rewrite !filter_cons_False by (unfold fetch_of; congruence).
  case_decide as Heq.
  - subst d0. by rewrite filter_cons_True.
  - rewrite filter_cons_False; [done|].
    intros H. by apply fetch_of_inj in H.
Qed.

(** The schedule of a season is requested at most once in a run, and not at
    all when its file is there from the start. *)
Lemma sync_fetch_count (ds : list Season) (s : State) (d : Season) :
  (fetch_count d (emitted s (sync ds s).2) ≤ 1)%nat ∧
  (is_Some (fs s !! outpath d) → fetch_count d (emitted s (sync ds s).2) = 0%nat).
Proof.
  revert s. induction ds as [|d0 ds IH]; intros s.
  { rewrite sync_nil. simpl. rewrite emitted_refl. split; [by compute; lia | done]. }
  rewrite sync_cons.
  destruct (download_spec d0 s) as [[_ ->]|(Hd0 & r & s1 & -> & Htr & Hr)]; [apply IH|].
  destruct Hr as [[e [-> _]]|[-> [c Hfs]]]; simpl.
  - rewrite (emitted_app _ _ _ Htr), fetch_count_pass.
    case_decide as Heq; [subst d0|]; (split; [lia|]); [|done].
    rewrite Hd0. by intros [? ?].
  - rewrite (emitted_step _ _ _ _ Htr), fetch_count_app, fetch_count_pass.
    destruct (IH s1) as [Hle Hzero].
    case_decide as Heq; [subst d0|].
    + rewrite Hzero by (rewrite Hfs, lookup_insert_eq; by eexists).
      split; [lia|]. rewrite Hd0. by intros [? ?].
    + split; [lia|]. intros [c' Hc']. simpl. apply Hzero.
      destruct (decide (outpath d0 = outpath d)) as [Hp|Hp].
      * rewrite Hfs, Hp, lookup_insert_eq. by eexists.
      * rewrite Hfs, lookup_insert_ne by done. by eexists.
Qed.

(** C7.  In every run, from every state, the schedule of any one season is
    requested at most once, however often the season occurs in the list. *)
Theorem at_most_one_fetch (ds : list Season) (s : State) (d : Season) :
  (fetch_count d (emitted s (sync ds s).2) ≤ 1)%nat.
Proof. apply sync_fetch_count. Qed.

Lemma throttled_nil : throttled [].
Proof. intros i h u H. by rewrite lookup_nil in H. Qed.

Lemma throttled_pass (line : string) (e : Event) :
  throttled [EPrint line; ESleep 1; e].
Proof.
  intros [|[|[|i]]] h u H; simpl in H; try done.
  by exists 1%nat.
Qed.

Lemma throttled_app (evs evs' : list Event) :
  throttled evs → throttled evs' → throttled (evs ++ evs').
Proof.
  intros H H' i h u Hi. apply lookup_app_Some in Hi as [Hi|[Hlen Hi]].
  - destruct (H i h u Hi) as (j & -> & Hj). exists j. split; [done|].
    by apply lookup_app_l_Some.
  - destruct (H' _ h u Hi) as (j & Hij & Hj).
    exists (length evs + j)%nat. split; [lia|].
    rewrite lookup_app_r by lia. by replace (length evs + j - length evs)%nat with j by lia.
Qed.

Lemma sync_throttled (ds : list Season) (s : State) :
  throttled (emitted s (sync ds s).2).
Proof.
  revert s. induction ds as [|d0 ds IH]; intros s.
  { rewrite sync_nil. simpl. rewrite emitted_refl. apply throttled_nil. }
  rewrite sync_cons.
  destruct (download_spec d0 s) as [[_ ->]|(Hd0 & r & s1 & -> & Htr & Hr)]; [apply IH|].
  destruct Hr as [[e [-> _]]|[-> _]]; simpl.
  - rewrite (emitted_app _ _ _ Htr). apply throttled_pass.
  - rewrite (emitted_step _ _ _ _ Htr).
    apply throttled_app; [apply throttled_pass | apply IH].
Qed.

(** C8.  Among the events of a run, every request is the immediate successor
    of a pause of 1 second: no request is sent without the pause before it. *)
Theorem sleep_before_every_fetch (ds : list Season) (s : State)
    (i : nat) (h u : string) :
  emitted s (sync ds s).2 !! i = Some (EGet h u) →
  ∃ j, i = S j ∧ emitted s (sync ds s).2 !! j = Some (ESleep 1).
Proof. apply sync_throttled. Qed.

(** ** Files in a run *)

(** A file that is new after a run is the file of a season of the list. *)
Lemma sync_fs_new (ds : list Season) (s : State) (p : string) :
  fs s !! p = None → is_Some (fs (sync ds s).2 !! p) →
  ∃ d, d ∈ ds ∧ p = outpath d.
Proof.
  revert s. induction ds as [|d0 ds IH]; intros s Hp Hnew.
  { rewrite sync_nil in Hnew. simpl in Hnew. rewrite Hp in Hnew. by destruct Hnew. }
  rewrite sync_cons in Hnew.
  assert (∀ s1, fs s1 = fs s → is_Some (fs (sync ds s1).2 !! p) →
            ∃ d, d ∈ d0 :: ds ∧ p = outpath d) as Hsame.
  { intros s1 Hfs H1. destruct (IH s1) as (d & Hd & ->); [by rewrite Hfs|done|].
    exists d. split; [by right | done]. }
  destruct (download_spec d0 s) as [[_ Hdl]|(Hd0 & r & s1 & Hdl & _ & Hr)];
    rewrite Hdl in Hnew.
  { by apply (Hsame s). }
  destruct Hr as [[e [-> Hfs]]|[-> [c Hfs]]]; simpl in Hnew.
  - rewrite Hfs, Hp in Hnew. by destruct Hnew.
  - destruct (decide (p = outpath d0)) as [->|Hne].
    + exists d0. split; [by left | done].
    + destruct (IH s1) as (d & Hd & ->); [by rewrite Hfs, lookup_insert_ne|done|].
      exists d. split; [by right | done].
Qed.

(** C10.  A run changes the files in one way only: a file that was there
    before the run is there after it with the same content, and a file that
    is new after the run lies at the schedule directory joined with the key
    of a season of the list. *)
Theorem sync_only_creates_cache_files (ds : list Season) (s : State) :
  (∀ p c, fs s !! p = Some c → fs (sync ds s).2 !! p = Some c) ∧
  (∀ p, fs s !! p = None → is_Some (fs (sync ds s).2 !! p) →
     ∃ d, d ∈ ds ∧ p = os_path_join schedDir (fileName d)).
Proof.
  split.
  - intros p c. apply sync_fs_mono.
  - intros p. apply sync_fs_new.
Qed.

(** ** Fetching *)

(** [getSchedule] raises exactly when nothing comes back or the body does not
    decode and parse; the status of the response plays no part. *)
Lemma getSchedule_raises (y : Z) (t k : string) (s : State) :
  (∃ e, (getSchedule y t k s).1 = Raise e) ↔
  match server (trace s) apiHost (schedule_url y t k) with
  | NoReply => True
  | Response _ data => decode_utf8 data ≫= json_loads = None
  end.
Proof.
  rewrite getSchedule_eq. simpl.
  destruct (server _ _ _) as [|st data]; simpl.
  { split; [done | by eexists]. }
  destruct (decode_utf8 data) as [text|]; simpl.
  - destruct (json_loads text); simpl; split; try done; try by eexists.
    by intros [e ?].
  - split; [done | by eexists].
Qed.

(** C4.  With no file in the schedule directory and the one season 2022/PST
    in the list, the run sends exactly one request, to the schedule endpoint
    for year 2022 and type PST; and when the response body decodes and
    parses and the file can be created, the run ends normally and its one
    change to the files is the new file schedPST2022.json in the schedule
    directory, holding the serialisation of the parsed body. *)
Theorem fetch_on_absence (s : State) :
  let d := {| year := 2022; type := "PST" |} in
  let cache_file := os_path_join schedDir "schedPST2022.json" in
  dir_empty schedDir (fs s) →
  fetches (emitted s (sync [d] s).2) =
    [("api.sportradar.us",
      "/nba/trial/v7/en/games/2022/PST/schedule.json?api_key=" +:+ apiKey)] ∧
  (∀ status data text seas,
     server (trace (announced d s)) apiHost (schedule_url 2022 "PST" apiKey)
       = Response status data →
     decode_utf8 data = Some text →
     json_loads text = Some seas →
     writable cache_file = true →
     (sync [d] s).1 = Ok tt ∧
     fs (sync [d] s).2 = <[cache_file := json_dumps seas]> (fs s)).
Proof.
  intros d cache_file Hempty.
  assert (fs s !! outpath d = None) as Habsent by apply (Hempty "schedPST2022.json").
  rewrite sync_cons, (download_absent _ _ Habsent).
  split.
  - pose proof (getSchedule_state (year d) (type d) apiKey (announced d s)) as Hst.
    destruct (getSchedule _ _ _ _) as [[seas|e] s1]; simpl in Hst; subst s1.
    + unfold write_file. by destruct (writable _); simpl;
        (erewrite emitted_app; [|simpl; by rewrite <-!app_assoc]).
    + simpl. by erewrite emitted_app; [|simpl; by rewrite <-!app_assoc].
  - intros status data text seas Hreply Hdec Hparse Hw.
    rewrite getSchedule_eq. simpl in *.
    rewrite Hreply, Hdec, Hparse. unfold write_file.
    change (outpath d) with cache_file. by rewrite Hw.
Qed.

(** C5.  When the seasons before the k-th are passed normally, the file of
    the k-th is absent and its fetch raises (nothing comes back, or the body
    does not decode or parse), the run ends with that exception right after
    the failed request: no event, hence no request, follows for a later
    season, and the files are those left by the earlier seasons, unchanged. *)
Theorem fail_fast (pre post : list Season) (d : Season) (s s1 s2 : State) (e : Exn) :
  sync pre s = (Ok tt, s1) →
  fs s1 !! outpath d = None →
  getSchedule (year d) (type d) apiKey (announced d s1) = (Raise e, s2) →
  sync (pre ++ d :: post) s = (Raise e, s2) ∧
  emitted s1 s2 = [EPrint ("downloading " +:+ fileName d); ESleep 1; fetch_of d] ∧
  fs s2 = fs s1.
Proof.
  intros Hpre Habsent Hfetch.
  pose proof (getSchedule_state (year d) (type d) apiKey (announced d s1)) as Hst.
  rewrite Hfetch in Hst. simpl in Hst.
  split; [|split].
  - by rewrite sync_app, Hpre, sync_cons, (download_absent _ _ Habsent), Hfetch.
  - apply emitted_app. rewrite Hst. simpl. by rewrite <-!app_assoc.
  - by rewrite Hst.
Qed.

(** C9.  When the file of a season is absent and the body that comes back
    does not decode or does not parse, the pass ends with the decoding or
    parsing exception, the files are as before, no file for the season
    exists, and the loop goes no further. *)
Theorem parse_failure_creates_no_file
    (d : Season) (s : State) (status : Z) (data : string) :
  fs s !! outpath d = None →
  server (trace (announced d s)) apiHost
    (schedule_url (year d) (type d) apiKey) = Response status data →
  decode_utf8 data ≫= json_loads = None →
  ∃ e, (e = UnicodeDecodeError ∨ e = JSONDecodeError) ∧
    (download d s).1 = Raise e ∧
    fs (download d s).2 = fs s ∧
    fs (download d s).2 !! outpath d = None ∧
    ∀ rest, sync (d :: rest) s = download d s.
Proof.
  intros Habsent Hreply Hparse.
  assert (∃ e, (e = UnicodeDecodeError ∨ e = JSONDecodeError) ∧
            download d s = (Raise e,
              log (EGet apiHost (schedule_url (year d) (type d) apiKey))
                  (announced d s))) as (e & He & Hdl).
  { rewrite (download_absent _ _ Habsent), getSchedule_eq. simpl in *.
    rewrite Hreply. destruct (decode_utf8 data) as [text|]; simpl in *.
    - rewrite Hparse. eauto.
    - eauto. }
  exists e. split; [done|]. rewrite Hdl. simpl. repeat split; try done.
  intros rest. by rewrite sync_cons, Hdl.
Qed.

(** * Further properties of the script *)

(** ** [getSchedule] *)

(** X1.  Under one API key the URL of a schedule request determines the year
    and the season type: two requests go to the same URL exactly when they
    are for the same year and type. *)
Theorem schedule_url_distinguishes (y y' : Z) (t t' k : string) :
  schedule_url y t k = schedule_url y' t' k ↔ y = y' ∧ t = t'.
Proof.
  split; [apply schedule_url_inj|]. by intros [-> ->].
Qed.

(** X2.  Whatever comes back, a call of [getSchedule] sends exactly one
    request, to the schedule URL on the API host, and changes no file. *)
Theorem getSchedule_one_request (y : Z) (t k : string) (s : State) :
  emitted s (getSchedule y t k s).2 = [EGet "api.sportradar.us" (schedule_url y t k)] ∧
  fs (getSchedule y t k s).2 = fs s.
Proof.
  rewrite getSchedule_state. split; [|done].
  by apply emitted_app.
Qed.

(** X3.  [getSchedule] returns a value exactly when a response comes back
    whose body decodes as UTF-8 and parses as JSON to that value; the status
    of the response does not matter. *)
Theorem getSchedule_returns (y : Z) (t k : string) (s : State) (v : Json) :
  (getSchedule y t k s).1 = Ok v ↔
  ∃ status data text,
    server (trace s) apiHost (schedule_url y t k) = Response status data ∧
    decode_utf8 data = Some text ∧ json_loads text = Some v.
Proof.
  rewrite getSchedule_eq. simpl.
  destruct (server _ _ _) as [|st data]; simpl.
  { split; [done | by intros (? & ? & ? & ? & _)]. }
  destruct (decode_utf8 data) as [text|] eqn:Hdec; simpl.
  - destruct (json_loads text) as [v'|] eqn:Hparse; simpl.
    + split.
      * intros [= ->]. by exists st, data, text.
      * intros (? & ? & text' & [= <- <-] & Hd & Hp). congruence.
    + split; [done|]. intros (? & ? & text' & [= <- <-] & Hd & Hp). congruence.
  - split; [done|]. intros (? & ? & text' & [= <- <-] & Hd & _). congruence.
Qed.

(** ** One pass of the loop body *)

Lemma announced_trace (d : Season) (s : State) :
  trace (log (fetch_of d) (announced d s)) = trace s ++ download_events d.
Proof. simpl. by rewrite <-!app_assoc. Qed.

(** X4.  For any season whose file is absent: when the fetch returns a value
    and the file can be created, the pass ends normally, its events are the
    notice naming the file, the pause and the request, and its one change to
    the files is the new file of the season, holding the serialisation of
    the value fetched. *)
Theorem download_stores_fetched (d : Season) (s s1 : State) (seas : Json) :
  fs s !! outpath d = None →
  getSchedule (year d) (type d) apiKey (announced d s) = (Ok seas, s1) →
  writable (outpath d) = true →
  (download d s).1 = Ok tt ∧
  emitted s (download d s).2 = download_events d ∧
  fs (download d s).2 = <[outpath d := json_dumps seas]> (fs s).
Proof.
  intros Habsent Hfetch Hw.
  pose proof (getSchedule_state (year d) (type d) apiKey (announced d s)) as Hst.
  rewrite Hfetch in Hst. simpl in Hst. subst s1.
  rewrite (download_absent _ _ Habsent), Hfetch. unfold write_file. rewrite Hw.
  simpl. split; [done|]. split; [|done].
  apply emitted_app. simpl. by rewrite <-!app_assoc.
Qed.


(** ** Whole runs *)


(** X8.  A run that ended normally can be repeated at no cost: run again from
    the state it left, the loop ends normally and leaves that state as it is,
    so it sends no request, prints nothing and writes nothing. *)
Theorem sync_idempotent (ds : list Season) (s s' : State) :
  sync ds s = (Ok tt, s') →
  sync ds s' = (Ok tt, s') ∧ emitted s' (sync ds s').2 = [].
Proof.
  intros H. rewrite (sync_rerun _ _ _ H). split; [done|]. apply emitted_refl.
Qed.

(** X9.  After a run that ended normally the paths that exist are those that
    existed before together with the file of every season of the list. *)
Theorem sync_files_after (ds : list Season) (s s' : State) (p : string) :
  sync ds s = (Ok tt, s') →
  is_Some (fs s' !! p) ↔ is_Some (fs s !! p) ∨ ∃ d, d ∈ ds ∧ p = outpath d.
Proof.
  intros H. assert (s' = (sync ds s).2) as Hs' by by rewrite H.
  split.
  - intros Hp. destruct (fs s !! p) as [c|] eqn:Hold; [left; by eexists|].
    right. apply (sync_fs_new ds s p Hold). by rewrite <-Hs'.
  - intros [[c Hc]|(d & Hd & ->)].
    + exists c. rewrite Hs'. by apply sync_fs_mono.
    + by eapply sync_populates.
Qed.

(** The events of a run are those of the downloads of some seasons of the
    list, in the order of the list; the file of each was absent at the start. *)
Lemma sync_events (ds : list Season) (s : State) :
  ∃ fetched, fetched `sublist_of` ds ∧
    (∀ d, d ∈ fetched → fs s !! outpath d = None) ∧
    emitted s (sync ds s).2 = fetched ≫= download_events.
Proof.
  revert s. induction ds as [|d0 ds IH]; intros s.
  { exists []. rewrite sync_nil. simpl. rewrite emitted_refl.
    split; [done|]. split; [|done]. intros d Hd. by apply elem_of_nil in Hd. }
  rewrite sync_cons.
  destruct (download_spec d0 s) as [[_ ->]|(Hd0 & r & s1 & -> & Htr & Hr)].
  { destruct (IH s) as (fetched & Hsub & Habs & Hev).
    exists fetched. split; [by apply sublist_cons | done]. }
  destruct Hr as [[e [-> _]]|[-> [c Hfs]]]; simpl.
  - exists [d0]. split; [apply sublist_skip, sublist_nil_l|]. split.
    + intros d Hd. by apply list_elem_of_singleton in Hd as ->.
    + rewrite (emitted_app _ _ _ Htr). by rewrite bind_singleton.
  - destruct (IH s1) as (fetched & Hsub & Habs & Hev).
    exists (d0 :: fetched). split; [by apply sublist_skip|]. split.
    + intros d Hd. apply elem_of_cons in Hd as [->|Hd]; [done|].
      specialize (Habs d Hd). rewrite Hfs in Habs.
      by apply lookup_insert_None in Habs as [? _].
    + by rewrite (emitted_step _ _ _ _ Htr), Hev, bind_cons.
Qed.

Lemma fetches_bind (l : list Season) :
  fetches (l ≫= download_events) =
  (λ d, (apiHost, schedule_url (year d) (type d) apiKey)) <$> l.
Proof.
  induction l as [|d l IH]; [done|].
  rewrite bind_cons, fmap_cons. unfold fetches in *.
  by rewrite omap_app, IH.
Qed.

Lemma slept_bind (l : list Season) :
  slept (l ≫= download_events) = Z.of_nat (length l).
Proof.
  induction l as [|d l IH]; [done|].
  rewrite bind_cons. simpl. rewrite IH. lia.
Qed.

(** X10.  The events of every run are made of whole downloads: for some
    seasons of the list, taken in the order of the list and each with its
    file absent at the start, the notice naming the file, the pause of one
    second and the request, and nothing else. *)
Theorem sync_events_shape (ds : list Season) (s : State) :
  ∃ fetched, fetched `sublist_of` ds ∧
    (∀ d, d ∈ fetched → fs s !! outpath d = None) ∧
    emitted s (sync ds s).2 =
      fetched ≫= λ d, [EPrint ("downloading " +:+ fileName d); ESleep 1;
                       EGet apiHost (schedule_url (year d) (type d) apiKey)].
Proof. apply sync_events. Qed.

(** X11.  The requests of a run are the schedule requests of some seasons of
    the list, sent in the order of the list; so a run sends at most as many
    requests as the list has seasons. *)
Theorem requests_in_list_order (ds : list Season) (s : State) :
  fetches (emitted s (sync ds s).2) `sublist_of`
    ((λ d, (apiHost, schedule_url (year d) (type d) apiKey)) <$> ds) ∧
  (length (fetches (emitted s (sync ds s).2)) ≤ length ds)%nat.
Proof.
  destruct (sync_events ds s) as (fetched & Hsub & _ & ->).
  rewrite fetches_bind. split.
  - by apply fmap_sublist.
  - rewrite length_fmap. by apply sublist_length.
Qed.

(** X12.  A run pauses one second for each request it sends: the seconds
    slept equal the number of requests. *)
Theorem one_second_per_request (ds : list Season) (s : State) :
  slept (emitted s (sync ds s).2) =
  Z.of_nat (length (fetches (emitted s (sync ds s).2))).
Proof.
  destruct (sync_events ds s) as (fetched & _ & _ & ->).
  by rewrite slept_bind, fetches_bind, length_fmap.
Qed.

(** X13.  A season whose file is there at the start of a run is not requested
    in that run, wherever and however often it occurs in the list. *)
Theorem cached_season_never_fetched (ds : list Season) (s : State) (d : Season) :
  is_Some (fs s !! outpath d) →
  fetch_count d (emitted s (sync ds s).2) = 0%nat.
Proof. apply sync_fetch_count. Qed.

(** X14.  A run can be resumed: the seasons at the front of the list that
    were passed normally are not requested again by any later run from the
    state the run left, whether the run went on to end normally or raised
    further down the list. *)
Theorem sync_resumes (pre rest again : list Season) (s s1 : State) (d : Season) :
  sync pre s = (Ok tt, s1) →
  d ∈ pre →
  fetch_count d
    (emitted (sync (pre ++ rest) s).2 (sync again (sync (pre ++ rest) s).2).2) = 0%nat.
Proof.
  intros Hpre Hd. apply sync_fetch_count.
  destruct (sync_populates _ _ _ Hpre d Hd) as [c Hc]. exists c.
  rewrite sync_app, Hpre. by apply sync_fs_mono.
Qed.

(** X15.  A season whose file is there at the start can be taken out of the
    list, wherever it stands, without changing anything about the run. *)
Theorem cached_season_transparent (pre post : list Season) (d : Season) (s : State) :
  is_Some (fs s !! outpath d) →
  sync (pre ++ d :: post) s = sync (pre ++ post) s.
Proof.
  intros [c Hc]. rewrite !sync_app.
  pose proof (sync_fs_mono pre s _ _ Hc) as Hmono.
  destruct (sync pre s) as [[[]|e] s1]; [|done].
  rewrite sync_cons, download_present; [done | by eexists].
Qed.

(** X16.  Two seasons with the same file name shadow each other: the one that
    comes second in the list is passed over like a repetition of the first,
    so its schedule is never requested and never stored. *)
Theorem colliding_keys_shadow (d d' : Season) (rest : list Season) (s : State) :
  fileName d = fileName d' →
  sync (d :: d' :: rest) s = sync (d :: rest) s.
Proof.
  intros Hkey.
  assert (outpath d' = outpath d) as Hpath by (unfold outpath; by rewrite Hkey).
  rewrite (sync_cons d), (sync_cons d rest).
  destruct (download_spec d s) as [[Hthere ->]|(_ & r & s1 & -> & _ & Hr)].
  { rewrite sync_cons, download_present; [done | by rewrite Hpath]. }
  destruct Hr as [[e [-> _]]|[-> [c Hfs]]]; [done|].
  rewrite sync_cons, download_present; [done|].
  rewrite Hpath, Hfs, lookup_insert_eq. by eexists.
Qed.

(** ** File names *)

Lemma starts_numeric_digit (x : N) (s : string) :
  starts_numeric (String (pretty_N_char x) s).
Proof. unfold pretty_N_char. simpl. by repeat case_match. Qed.

Lemma starts_numeric_pretty_N_go (x : N) (s : string) :
  starts_numeric s → starts_numeric (pretty_N_go x s).
Proof.
  revert s. induction (N.lt_wf_0 x) as [x _ IH]; intros s Hs.
  destruct (decide (x = 0%N)) as [->|Hx]; [done|].
  rewrite pretty_N_go_step by lia.
  apply IH; [apply N.div_lt; lia|]. apply starts_numeric_digit.
Qed.

Lemma starts_numeric_pretty_N (x : N) : starts_numeric (pretty x).
Proof.
  unfold pretty, pretty_N. case_decide as Hx; [done|].
  rewrite pretty_N_go_step by lia.
  apply starts_numeric_pretty_N_go, starts_numeric_digit.
Qed.

(** The rendering of an integer is not empty and opens with a digit or the
    minus sign. *)
Lemma starts_numeric_str (n : Z) : starts_numeric (str n).
Proof.
  unfold str, pretty, pretty_Z. destruct n as [|p|p]; [done| |done].
  apply starts_numeric_pretty_N.
Qed.

Lemma starts_numeric_append (a b : string) :
  starts_numeric a → starts_numeric (a +:+ b).
Proof. by destruct a. Qed.

(** A word followed by a number splits in one way only. *)
Lemma split_word_number (t t' r r' : string) :
  wordy t → wordy t' → starts_numeric r → starts_numeric r' →
  t +:+ r = t' +:+ r' → t = t' ∧ r = r'.
Proof.
  revert t'. induction t as [|x t IH]; intros [|y t'] Ht Ht' Hr Hr' H;
    rewrite ?append_nil, ?append_cons in H.
  - done.
  - subst r. destruct Ht' as [Hy _]. simpl in Hr. congruence.
  - subst r'. destruct Ht as [Hx _]. simpl in Hr'. congruence.
  - injection H as -> H. destruct Ht as [_ Ht], Ht' as [_ Ht'].
    destruct (IH t' Ht Ht' Hr Hr' H) as [-> ->]. done.
Qed.

(** X17.  Seasons whose type codes hold no digit and no minus sign, such as
    REG, PST and PRE, never share a file name: equal file names mean the same
    year and the same type. *)
Theorem fileName_inj_wordy (d d' : Season) :
  wordy (type d) → wordy (type d') →
  fileName d = fileName d' → d = d'.
Proof.
  intros Ht Ht' H. unfold fileName in H.
  apply (inj (String.app _)) in H.
  apply split_word_number in H as [Htype Hyear];
    [|done|done|apply starts_numeric_append, starts_numeric_str..].
  apply append_inj_r, str_inj in Hyear.
  destruct d, d'; simpl in *. by subst.
Qed.

(** ** Requests of a run that ended normally *)


End Proofs.

(** ** The status of a response *)


(** * The theorems at work on the sample environment *)

(** The file of the 2021 regular season is on disk: the run sends nothing. *)
Lemma sync_cached_no_fetch_sample :
  let ds := [{| year := 2021; type := "REG" |}] in
  fetches (emitted sample_cached (sync (env := sample_env) ds sample_cached).2) = [] ∧
  sync (env := sample_env) ds sample_cached = (Ok tt, sample_cached).
Proof.
  apply (sync_cached_no_fetch (env := sample_env)).
  intros d Hd. apply list_elem_of_singleton in Hd as ->.
  exists "{}". by vm_compute.
Defined.

Lemma skip_on_presence_sample :
  let d := {| year := 2021; type := "REG" |} in
  download (env := sample_env) d sample_cached = (Ok tt, sample_cached) ∧
  fetches (emitted sample_cached (download (env := sample_env) d sample_cached).2) = [] ∧
  fs (download (env := sample_env) d sample_cached).2 = fs sample_cached.
Proof.
  apply (skip_on_presence (env := sample_env)).
  exists "{}". by vm_compute.
Defined.

(** From an empty disk the 2022 play-offs are fetched once and stored. *)
Lemma fetch_on_absence_sample :
  let d := {| year := 2022; type := "PST" |} in
  fetches (emitted sample_start (sync (env := sample_env) [d] sample_start).2) =
    [("api.sportradar.us",
      "/nba/trial/v7/en/games/2022/PST/schedule.json?api_key=TESTKEY")] ∧
  (sync (env := sample_env) [d] sample_start).1 = Ok tt ∧
  fs (sync (env := sample_env) [d] sample_start).2 =
    {[ "D:/nbaBlog/schedules/schedPST2022.json" := "{}" ]}.
Proof.
  destruct (fetch_on_absence (env := sample_env) sample_start) as [Hone Hfile].
  { intros name. apply lookup_empty. }
  split; [exact Hone|].
  apply (Hfile 200 "{}" "{}" "{}"); reflexivity.
Defined.

(** Five seasons, the third of which gets no answer: the run stops there. *)
Lemma fail_fast_sample :
  let pre := [{| year := 2018; type := "REG" |}; {| year := 2018; type := "PST" |}] in
  let d := {| year := 2021; type := "PST" |} in
  let post := [{| year := 2022; type := "REG" |}; {| year := 2022; type := "PST" |}] in
  let s1 := (sync (env := sample_env) pre sample_start).2 in
  let s2 := log (fetch_of (env := sample_env) d) (announced d s1) in
  sync (env := sample_env) (pre ++ d :: post) sample_start = (Raise NetworkError, s2) ∧
  emitted s1 s2 =
    [EPrint "downloading schedPST2021.json"; ESleep 1; fetch_of (env := sample_env) d] ∧
  fs s2 = fs s1.
Proof.
  apply (fail_fast (env := sample_env)); by vm_compute.
Defined.

(** The third event of a download is the request, the second the pause. *)
Lemma sleep_before_every_fetch_sample :
  let ds := [{| year := 2022; type := "PST" |}] in
  ∃ j, 2%nat = S j ∧
    emitted sample_start (sync (env := sample_env) ds sample_start).2 !! j
      = Some (ESleep 1).
Proof.
  apply (sleep_before_every_fetch (env := sample_env) _ _ 2 apiHost
           (schedule_url 2022 "PST" sample_key)).
  by vm_compute.
Defined.

(** The page that comes back for the 2020 regular season is no JSON. *)
Lemma parse_failure_creates_no_file_sample :
  let d := {| year := 2020; type := "REG" |} in
  ∃ e, (e = UnicodeDecodeError ∨ e = JSONDecodeError) ∧
    (download (env := sample_env) d sample_start).1 = Raise e ∧
    fs (download (env := sample_env) d sample_start).2 = fs sample_start ∧
    fs (download (env := sample_env) d sample_start).2 !! outpath d = None ∧
    ∀ rest, sync (env := sample_env) (d :: rest) sample_start
            = download (env := sample_env) d sample_start.
Proof.
  apply (parse_failure_creates_no_file (env := sample_env) _ _ 200
           "<h1>Developer Over Qps</h1>"); by vm_compute.
Defined.

(** C5 as stated fails for a non-success response: a response with status
    403 whose body parses does not end the run; the body is stored as the
    schedule of that season and the next season is fetched. *)
Lemma non_success_response_not_fatal :
  let d1 := {| year := 2019; type := "REG" |} in
  let d2 := {| year := 2022; type := "PST" |} in
  let run := sync (env := sample_env) [d1; d2] sample_start in
  server (Env := sample_env) (trace (announced d1 sample_start)) apiHost
    (schedule_url 2019 "REG" sample_key) = Response 403 "{}" ∧
  run.1 = Ok tt ∧
  fetch_count (env := sample_env) d2 (emitted sample_start run.2) = 1%nat ∧
  fs run.2 !! outpath d1 = Some "{}".
Proof. by vm_compute. Qed.

(** * The further properties at work on the sample environment *)

(** From an empty disk the 2022 play-offs are fetched and stored. *)
Lemma download_stores_fetched_sample :
  let d := {| year := 2022; type := "PST" |} in
  (download (env := sample_env) d sample_start).1 = Ok tt ∧
  emitted sample_start (download (env := sample_env) d sample_start).2 =
    download_events (env := sample_env) d ∧
  fs (download (env := sample_env) d sample_start).2 =
    <[outpath d := json_dumps (Env := sample_env) "{}"]> (fs sample_start).
Proof.
  apply (download_stores_fetched (env := sample_env) _ _
           (log (fetch_of (env := sample_env) {| year := 2022; type := "PST" |})
              (announced {| year := 2022; type := "PST" |} sample_start)));
    by vm_compute.
Defined.

Lemma sync_idempotent_sample :
  let ds := [{| year := 2022; type := "PST" |}; {| year := 2018; type := "REG" |}] in
  let s' := (sync (env := sample_env) ds sample_start).2 in
  sync (env := sample_env) ds s' = (Ok tt, s') ∧
  emitted s' (sync (env := sample_env) ds s').2 = [].
Proof.
  apply (sync_idempotent (env := sample_env) _ sample_start). by vm_compute.
Defined.

Lemma sync_files_after_sample :
  let ds := [{| year := 2022; type := "PST" |}] in
  let p := "D:/nbaBlog/schedules/schedPST2022.json" in
  is_Some (fs (sync (env := sample_env) ds sample_start).2 !! p) ↔
  is_Some (fs sample_start !! p) ∨ ∃ d, d ∈ ds ∧ p = outpath d.
Proof.
  apply (sync_files_after (env := sample_env)). by vm_compute.
Defined.

(** The 2021 regular season is on disk and is not asked for again. *)
Lemma cached_season_never_fetched_sample :
  let d := {| year := 2021; type := "REG" |} in
  let ds := [d; {| year := 2022; type := "PST" |}; d] in
  fetch_count (env := sample_env) d
    (emitted sample_cached (sync (env := sample_env) ds sample_cached).2) = 0%nat.
Proof.
  apply (cached_season_never_fetched (env := sample_env)).
  exists "{}". by vm_compute.
Defined.

(** The run stops at the 2021 play-offs; run again, it does not ask for the
    2018 regular season a second time. *)
Lemma sync_resumes_sample :
  let d := {| year := 2018; type := "REG" |} in
  let rest := [{| year := 2021; type := "PST" |}] in
  let s' := (sync (env := sample_env) ([d] ++ rest) sample_start).2 in
  fetch_count (env := sample_env) d
    (emitted s' (sync (env := sample_env) ([d] ++ rest) s').2) = 0%nat.
Proof.
  apply (sync_resumes (env := sample_env) [_] _ _ sample_start
           (sync (env := sample_env) [{| year := 2018; type := "REG" |}] sample_start).2).
  - by vm_compute.
  - by left.
Defined.

Lemma cached_season_transparent_sample :
  let pre := [{| year := 2022; type := "PST" |}] in
  let d := {| year := 2021; type := "REG" |} in
  let post := [{| year := 2018; type := "REG" |}] in
  sync (env := sample_env) (pre ++ d :: post) sample_cached =
  sync (env := sample_env) (pre ++ post) sample_cached.
Proof.
  apply (cached_season_transparent (env := sample_env)).
  exists "{}". by vm_compute.
Defined.

(** Type A of year 12 and type A1 of year 2 have the file schedA12.json. *)
Lemma colliding_keys_shadow_sample :
  let d := {| year := 12; type := "A" |} in
  let d' := {| year := 2; type := "A1" |} in
  sync (env := sample_env) [d; d'] sample_start =
  sync (env := sample_env) [d] sample_start.
Proof.
  apply (colliding_keys_shadow (env := sample_env)). by vm_compute.
Defined.

Lemma fileName_inj_wordy_sample :
  {| year := 2021; type := "REG" |} = {| year := 2020 + 1; type := "REG" |}.
Proof.
  apply fileName_inj_wordy; [repeat split..|by vm_compute].
Defined.

